(** * chatroom-rs: rooms, sessions and broadcast fan-out (src/main.rs)

    Shallow embedding of [handle_socket] and of the state it shares with the
    other connections: the registry [AppState.rooms], each room's member set
    [RoomState.users], and the room's [tokio::sync::broadcast] channel. *)

From stdpp Require Import base gmap sets list strings pretty.

Local Open Scope string_scope.

(* ------------------------------------------------------------------ *)
(** ** Data model *)

(** [axum::extract::ws::Message]. *)
Inductive Message :=
| Text (s : string)
| Binary (b : list Byte.byte)
| Ping (b : list Byte.byte)
| Pong (b : list Byte.byte)
| Close.

(** One item yielded by [receiver.next().await]: [Some(Ok msg)] or
    [Some(Err _)]; the end of the list is [None]. *)
Inductive WsItem :=
| Item (m : Message)
| ItemErr.

(** [struct Connect { username, channel }], the decoded handshake. *)
Record Connect := { username : string; channel : string }.

(** [struct RoomState]: the member set.  The [tx] field, the room's
    broadcast sender, is modelled by [Broadcast.Channel] below; registry
    operations only clone it. *)
Record RoomState := { users : gset string }.

(** [RoomState::new()] (member part). *)
Definition RoomState_new : RoomState := {| users := ∅ |}.

(** [AppState.rooms : Mutex<HashMap<String, RoomState>>]. *)
Abbreviation Rooms := (gmap string RoomState).

(** A clone of a room's broadcast sender, identified by the room name it
    was cloned from ([tx = Some(room.tx.clone())]). *)
Abbreviation Sender := string.

(** [Option::is_some]. *)
Definition is_some {A} (o : option A) : bool :=
  match o with Some _ => true | None => false end.

(* ------------------------------------------------------------------ *)
(** ** Handshake loop, lines 84-128 *)

(** How the [while let] handshake loop was left: by falling through (end of
    stream, stream error or [break]) to line 130, or by [return]. *)
Inductive LoopExit := Fallthrough | Returned.

Record HsState := {
  hs_exit : LoopExit;
  hs_rooms : Rooms;
  hs_username : string;
  hs_channel : string;
  hs_tx : option Sender;
  hs_sent : list string;      (* text frames sent to the client, in order *)
  hs_rest : list WsItem       (* frames the receiver has not yielded yet *)
}.

Section Handshake.

(** [serde_json::from_str::<Connect>]: an external decoder, left abstract. *)
Variable from_str : string -> option Connect.

(** The critical section of lines 102-116 under [state.rooms.lock()]:
    [entry(..).or_insert_with(RoomState::new)], clone the sender, insert
    the username if absent.  Returns the new registry, [tx] and [username]. *)
Definition join_critical (rooms : Rooms) (conn : Connect) (username0 : string)
  : Rooms * option Sender * string :=
  let room := default RoomState_new (rooms !! channel conn) in
  let tx := Some (channel conn) in
  if negb (bool_decide (username conn ∈ users room)) then
    (<[channel conn := {| users := {[username conn]} ∪ users room |}]> rooms,
     tx, username conn)
  else (<[channel conn := room]> rooms, tx, username0).

Fixpoint handshake_loop (rooms : Rooms) (username0 channel0 : string)
    (tx : option Sender) (sent : list string) (rx : list WsItem) : HsState :=
  match rx with
  | [] => Build_HsState Fallthrough rooms username0 channel0 tx sent []
  | ItemErr :: rest => Build_HsState Fallthrough rooms username0 channel0 tx sent rest
  | Item (Text name) :: rest =>
      match from_str name with
      | None =>
          (* send "Failed to connect to room!"; break *)
          Build_HsState Fallthrough rooms username0 channel0 tx
            (sent ++ ["Failed to connect to room!"])%list rest
      | Some conn =>
          let channel1 := channel conn in
          match join_critical rooms conn username0 with
          | (rooms1, tx1, username1) =>
              if is_some tx1 && negb (String.eqb username1 "") then
                (* break *)
                Build_HsState Fallthrough rooms1 username1 channel1 tx1 sent rest
              else
                (* send "Username already taken."; return *)
                Build_HsState Returned rooms1 username1 channel1 tx1
                  (sent ++ ["Username already taken."])%list rest
          end
      end
  | Item _ :: rest => handshake_loop rooms username0 channel0 tx sent rest
  end.

End Handshake.

(** Where [handle_socket] stands after the handshake loop. *)
Inductive Session :=
| SReturned (rooms : Rooms) (sent : list string)
    (* [return] after "Username already taken." *)
| SPanicked (rooms : Rooms) (sent : list string)
    (* [tx.unwrap()] on [None] at line 130: the task panics *)
| SActive (rooms : Rooms) (sent : list string) (username0 channel0 : string)
    (tx : Sender) (rest : list WsItem).

(** Lines 84-130: the handshake loop from [username = String::new()],
    [channel = String::new()], [tx = None], then [let tx = tx.unwrap()]. *)
Definition handle_socket_handshake (from_str : string -> option Connect)
    (rooms : Rooms) (rx : list WsItem) : Session :=
  let st := handshake_loop from_str rooms "" "" None [] rx in
  match hs_exit st with
  | Returned => SReturned (hs_rooms st) (hs_sent st)
  | Fallthrough =>
      match hs_tx st with
      | None => SPanicked (hs_rooms st) (hs_sent st)
      | Some tx => SActive (hs_rooms st) (hs_sent st) (hs_username st) (hs_channel st) tx (hs_rest st)
      end
  end.

Definition session_rooms (s : Session) : Rooms :=
  match s with
  | SReturned r _ | SPanicked r _ | SActive r _ _ _ _ _ => r
  end.

(* ------------------------------------------------------------------ *)
(** ** The room's broadcast channel ([tokio::sync::broadcast]) *)

Module Broadcast.

(** A channel keeps every value ever sent in [log]; a receiver is the index
    of the next value it reads.  Only the last [cap] values are retained:
    a receiver further behind than that is lagging. *)
Record Channel := { cap : nat; log : list string }.

(** [broadcast::channel(capacity)]: tokio rounds the capacity up to the
    next power of two. *)
Definition channel (capacity : nat) : Channel :=
  {| cap := Nat.pow 2 (Nat.log2_up capacity); log := [] |}.






End Broadcast.

(* ------------------------------------------------------------------ *)
(** ** Active phase, lines 130-152 *)



(** Task [send_messages], lines 144-152:
    [while let Some(Ok(Message::Text(text))) = receiver.next().await
       { tx.send(format!("{}: {}", name, text)) }].
    Returns the lines broadcast to the room. *)
Fixpoint send_messages (name : string) (rx : list WsItem) : list string :=
  match rx with
  | Item (Text text) :: rest => (name ++ ": " ++ text) :: send_messages name rest
  | _ => []
  end.

(* ------------------------------------------------------------------ *)
(** ** Closing, lines 154-172 *)

(** Which task finished first in [tokio::select!]. *)
Inductive Winner := SendMessagesDone | RecvMessagesDone.

Inductive Effect :=
| AbortRecvMessages
| AbortSendMessages
| Broadcast_send (line : string)
| Leave (channel0 username0 : string)
| RemoveRoom (channel0 : string)
| Panic.

(** Lines 161-168: [rooms.get_mut(&channel).unwrap().users...remove(&username)];
    [None] is the panic of [unwrap]. *)
Definition leave (rooms : Rooms) (channel0 username0 : string) : option Rooms :=
  match rooms !! channel0 with
  | None => None
  | Some room => Some (<[channel0 := {| users := users room ∖ {[username0]} |}]> rooms)
  end.

(** Lines 154-157: the [select!] arm aborts the task that did not finish. *)
Definition abort_of (w : Winner) : Effect :=
  match w with
  | SendMessagesDone => AbortRecvMessages
  | RecvMessagesDone => AbortSendMessages
  end.

(** Lines 154-172, the whole closing sequence (the [rooms] lock is held from
    line 161 to the end of the function). *)
Definition closing (w : Winner) (rooms : Rooms) (username0 channel0 : string)
  : list Effect * option Rooms :=
  let e0 := [abort_of w; Broadcast_send (username0 ++ " left the chat!")] in
  match leave rooms channel0 username0 with
  | None => ((e0 ++ [Panic])%list, None)
  | Some rooms1 =>
      let e1 := (e0 ++ [Leave channel0 username0])%list in
      match rooms1 !! channel0 with
      | None => ((e1 ++ [Panic])%list, None)
      | Some room =>
          if Nat.eqb (size (users room)) 0
          then ((e1 ++ [RemoveRoom channel0])%list, Some (delete channel0 rooms1))
          else (e1, Some rooms1)
      end
  end.

(* ------------------------------------------------------------------ *)
(** ** All connections together *)

(** The registry is touched only inside the two critical sections under
    [state.rooms.lock()]: the join (lines 102-116) and the cleanup
    (lines 161-172).  Everything else a session does is local to it or goes
    through the broadcast channel, so a run of the server is an interleaving
    of whole handshakes and whole closings. *)
Inductive Phase :=
| Handshaking (rx : list WsItem)
| Active (username0 channel0 : string)
| Terminated.

Record System := { sys_rooms : Rooms; sessions : list Phase }.

Definition session_phase (s : Session) : Phase :=
  match s with
  | SActive _ _ u c _ _ => Active u c
  | _ => Terminated
  end.

Definition init : System := {| sys_rooms := ∅; sessions := [] |}.

Section Server.

Variable from_str : string -> option Connect.

Inductive step : System -> System -> Prop :=
| step_accept rooms ss rx :
    (* a new connection is upgraded and [handle_socket] spawned *)
    step {| sys_rooms := rooms; sessions := ss |}
         {| sys_rooms := rooms; sessions := ss ++ [Handshaking rx] |}
| step_handshake rooms ss i rx :
    ss !! i = Some (Handshaking rx) ->
    step {| sys_rooms := rooms; sessions := ss |}
         {| sys_rooms := session_rooms (handle_socket_handshake from_str rooms rx);
            sessions := <[i := session_phase (handle_socket_handshake from_str rooms rx)]> ss |}
| step_close rooms ss i u c w :
    (* either loop finished; a panic in the cleanup leaves [rooms] as it was *)
    ss !! i = Some (Active u c) ->
    step {| sys_rooms := rooms; sessions := ss |}
         {| sys_rooms := default rooms (snd (closing w rooms u c));
            sessions := <[i := Terminated]> ss |}.

Definition reachable (s : System) : Prop := rtc step init s.

End Server.

(* ------------------------------------------------------------------ *)
(** ** A concrete decoder for examples *)

(** [serde_json::from_str::<Connect>] restricted to the compact form
    [{"username":"U","channel":"C"}] where U and C hold no quote, backslash
    or control character: every string it accepts, serde_json decodes to
    the same [Connect]; it rejects some strings serde_json accepts
    (whitespace, other field orders), so it is used only on inputs where
    both agree. *)
Definition dq : Ascii.ascii := Ascii.ascii_of_nat 34.
Definition dqs : string := String dq EmptyString.

Definition plain_char (a : Ascii.ascii) : bool :=
  negb (Ascii.eqb a dq) && negb (Ascii.eqb a (Ascii.ascii_of_nat 92))
  && Nat.leb 32 (Ascii.nat_of_ascii a).

(** Split at the first quote: the plain characters before it and the rest
    starting at the quote. *)
Fixpoint split_at_dq (s : string) : option (string * string) :=
  match s with
  | EmptyString => None
  | String a s' =>
      if Ascii.eqb a dq then Some (EmptyString, s)
      else if plain_char a then
        match split_at_dq s' with
        | Some (x, y) => Some (String a x, y)
        | None => None
        end
      else None
  end.

Definition strip_prefix (p s : string) : option string :=
  if String.prefix p s
  then Some (String.substring (String.length p) (String.length s - String.length p) s)
  else None.

Definition json_head : string := "{" ++ dqs ++ "username" ++ dqs ++ ":" ++ dqs.
Definition json_mid : string := dqs ++ "," ++ dqs ++ "channel" ++ dqs ++ ":" ++ dqs.
Definition json_tail : string := dqs ++ "}".

Definition compact_from_str (s : string) : option Connect :=
  match strip_prefix json_head s with
  | None => None
  | Some s1 =>
      match split_at_dq s1 with
      | None => None
      | Some (u, s2) =>
          match strip_prefix json_mid s2 with
          | None => None
          | Some s3 =>
              match split_at_dq s3 with
              | None => None
              | Some (c, s4) =>
                  if String.eqb s4 json_tail
                  then Some {| username := u; channel := c |} else None
              end
          end
      end
  end.

(** The handshake text a client sends: [{"username":u,"channel":c}]. *)
Definition join_request (u c : string) : string :=
  json_head ++ u ++ json_mid ++ c ++ json_tail.

(** Frames the handshake loop skips: [if let Message::Text(..)] fails. *)
Definition non_text (it : WsItem) : bool :=
  match it with
  | Item (Text _) => false
  | Item _ => true
  | ItemErr => false
  end.

(** The frames a live socket can carry before the join and still go on:
    binary, ping and pong.  After a close frame the stream ends. *)
Definition ignored_frame (it : WsItem) : bool :=
  match it with
  | Item (Binary _) | Item (Ping _) | Item (Pong _) => true
  | _ => false
  end.

(** The registry's invariant: every room present has a member. *)
Definition rooms_nonempty (rooms : Rooms) : Prop :=
  forall c room, rooms !! c = Some room -> users room ≠ ∅.

(** A registry update that keeps every room and every member. *)
Definition rooms_grow (rooms rooms' : Rooms) : Prop :=
  forall c room, rooms !! c = Some room ->
    exists room', rooms' !! c = Some room' /\ users room ⊆ users room'.

(** The invariant of a run: rooms are non-empty, every active session's
    user is a member of its room, and no two active sessions share a
    (username, room) pair. *)
Definition system_inv (sys : System) : Prop :=
  rooms_nonempty (sys_rooms sys)
  /\ (forall i u c, sessions sys !! i = Some (Active u c) ->
        exists room, sys_rooms sys !! c = Some room /\ u ∈ users room)
  /\ (forall i j u c, sessions sys !! i = Some (Active u c) ->
        sessions sys !! j = Some (Active u c) -> i = j).

(* ------------------------------------------------------------------ *)
(** ** The listing endpoint [get_rooms], lines 175-190 *)

(** The [serde_json::Value] built by [json!], fields in source order. *)
Inductive Json :=
| JString (s : string)
| JArray (items : list Json)
| JObject (fields : list (string * Json)).

(** [rooms.keys().into_iter().collect::<Vec<&String>>()], then the [json!]
    value chosen by [vec.len()].  HashMap iteration order is unspecified;
    the gmap's order stands for it, so properties are stated up to order.
    The value is modelled before [.to_string()]. *)
Definition get_rooms (rooms : Rooms) : Json :=
  let vec := (map_to_list rooms).*1 in
  match length vec with
  | 0 => JObject [("status", JString "No rooms found yet!"); ("rooms", JArray [])]
  | _ => JObject [("status", JString "Success!"); ("rooms", JArray (map JString vec))]
  end.

(* ------------------------------------------------------------------ *)
(** ** Port selection in [main], lines 40-43 *)

(** An ASCII decimal digit's value. *)
Definition digit_value (a : Ascii.ascii) : option N :=
  let n := Ascii.nat_of_ascii a in
  if Nat.leb 48 n && Nat.leb n 57 then Some (N.of_nat (n - 48)) else None.

(** The digit loop of [u16::from_str_radix(_, 10)]: [checked_mul(10)] and
    [checked_add(d)] fail past [u16::MAX = 65535]. *)
Fixpoint parse_digits (acc : N) (s : string) : option N :=
  match s with
  | EmptyString => Some acc
  | String a s' =>
      match digit_value a with
      | None => None
      | Some d =>
          let v := (acc * 10 + d)%N in
          if N.ltb 65535 v then None else parse_digits v s'
      end
  end.

(** [val.parse::<u16>()]: the empty string is an error; a leading ['+'] is
    skipped unless nothing follows it; then the digit loop. *)
Definition u16_from_str (s : string) : option N :=
  match s with
  | EmptyString => None
  | String a rest =>
      if Ascii.eqb a (Ascii.ascii_of_nat 43) then
        match rest with
        | EmptyString => None
        | _ => parse_digits 0 rest
        end
      else parse_digits 0 s
  end.

(** Lines 40-43: [env::var("PORT").map(|val| val.parse::<u16>())
    .unwrap_or(Ok(3000)).unwrap()].  [env_port] is [None] when [PORT] is
    unset (or not unicode); a [None] result is the panic of [unwrap()]. *)
Definition main_port (env_port : option string) : option N :=
  match env_port with
  | None => Some 3000%N
  | Some val => u16_from_str val
  end.

(** A run: alice connects and joins "lobby". *)
Definition alice_rx : list WsItem := [Item (Text (join_request "alice" "lobby"))].

Definition alice_in_lobby : System :=
  {| sys_rooms := session_rooms (handle_socket_handshake compact_from_str ∅ alice_rx);
     sessions := <[0 := session_phase (handle_socket_handshake compact_from_str ∅ alice_rx)]>
                   ([] ++ [Handshaking alice_rx])%list |}.

(* ================================================================== *)
(** * Properties *)

Example compact_from_str_ok :
  compact_from_str (join_request "alice" "lobby")
  = Some {| username := "alice"; channel := "lobby" |}.
Proof. reflexivity. Qed.

Example compact_from_str_bad : compact_from_str "hello" = None.
Proof. reflexivity. Qed.

Lemma handshake_loop_skip from_str rooms u c tx sent pre rest :
  Forall (fun it => non_text it = true) pre ->
  handshake_loop from_str rooms u c tx sent (pre ++ rest)
  = handshake_loop from_str rooms u c tx sent rest.
Proof.
  induction 1 as [|it pre Hit _ IH]; [done|].
  destruct it as [[]|]; simpl in *; try discriminate; exact IH.
Qed.

Lemma ignored_frames_non_text (pre : list WsItem) :
  Forall (fun it => ignored_frame it = true) pre ->
  Forall (fun it => non_text it = true) pre.
Proof. intros H. eapply Forall_impl; [exact H|]. intros [[]|]; done. Qed.

(** C1 (code_bug).  When the first text frame does not decode, the client
    gets "Failed to connect to room!" and the registry is untouched, but the
    [break] leaves the loop with [tx = None], so [tx.unwrap()] at line 130
    panics: the task does not end normally. *)
Lemma decode_failure_panics (from_str : string -> option Connect)
    (rooms : Rooms) (pre rest : list WsItem) (s : string)
    (Hpre : Forall (fun it => non_text it = true) pre)
    (Hdec : from_str s = None) :
  handle_socket_handshake from_str rooms (pre ++ Item (Text s) :: rest)
  = SPanicked rooms ["Failed to connect to room!"].
Proof.
  unfold handle_socket_handshake.
  rewrite handshake_loop_skip by exact Hpre.
  simpl. rewrite Hdec. reflexivity.
Qed.

Lemma decode_failure_panics_witness :
  Forall (fun it => non_text it = true) [Item (Ping [])]
  /\ compact_from_str "hello" = None
  /\ handle_socket_handshake compact_from_str ∅ ([Item (Ping [])] ++ Item (Text "hello") :: [])
     = SPanicked ∅ ["Failed to connect to room!"].
Proof.
  split; [repeat constructor|]. split; [reflexivity|].
  apply (decode_failure_panics compact_from_str ∅ [Item (Ping [])] [] "hello").
  - repeat constructor.
  - reflexivity.
Defined.

(** C10 (code_bug).  The [unwrap] at line 130 is reached with [tx = None]
    when the stream ends or errors before any join, and after a decode
    failure. *)
Lemma unwrap_tx_reached_with_none (from_str : string -> option Connect)
    (rooms : Rooms) (rest : list WsItem) :
  handle_socket_handshake from_str rooms [] = SPanicked rooms []
  /\ handle_socket_handshake from_str rooms (ItemErr :: rest) = SPanicked rooms []
  /\ handle_socket_handshake compact_from_str rooms (Item (Text "hello") :: rest)
     = SPanicked rooms ["Failed to connect to room!"].
Proof. repeat split. Qed.

(** C2 (code_bug).  An empty username is not a member of a fresh room, so
    it is inserted; the "joined" test [!username.is_empty()] then fails and
    the client is told "Username already taken.", leaving [""] in the room. *)
Lemma empty_username_inserted_then_rejected
    (from_str : string -> option Connect) (rooms : Rooms) (s c : string)
    (rest : list WsItem)
    (Hdec : from_str s = Some {| username := ""; channel := c |})
    (Hfresh : rooms !! c = None) :
  handle_socket_handshake from_str rooms (Item (Text s) :: rest)
  = SReturned (<[c := {| users := {[""]} |}]> rooms) ["Username already taken."].
Proof.
  unfold handle_socket_handshake, join_critical. simpl.
  rewrite Hdec. unfold join_critical. simpl. rewrite Hfresh. simpl.
  rewrite bool_decide_false by set_solver. simpl.
  rewrite union_empty_r_L. reflexivity.
Qed.

Lemma empty_username_inserted_then_rejected_witness :
  compact_from_str (join_request "" "lobby") = Some {| username := ""; channel := "lobby" |}
  /\ (∅ : Rooms) !! "lobby" = None
  /\ handle_socket_handshake compact_from_str ∅ [Item (Text (join_request "" "lobby"))]
     = SReturned (<["lobby" := {| users := {[""]} |}]> ∅) ["Username already taken."].
Proof.
  split; [reflexivity|]. split; [reflexivity|].
  apply (empty_username_inserted_then_rejected compact_from_str ∅ _ "lobby" []);
    reflexivity.
Defined.

(** C5.  The inbound loop broadcasts ["{username}: {text}"] for each text
    frame, verbatim and in order, and stops at the first end of stream,
    stream error or non-text frame. *)
Lemma send_messages_format (name : string) (texts : list string)
    (rest : list WsItem)
    (Hstop : match rest with Item (Text _) :: _ => False | _ => True end) :
  send_messages name (map (fun t => Item (Text t)) texts ++ rest)
  = map (fun t => name ++ ": " ++ t) texts.
Proof.
  induction texts as [|t texts IH]; simpl.
  - destruct rest as [|[[]|] rest]; done.
  - by rewrite IH.
Qed.

Lemma send_messages_format_witness :
  send_messages "alice" (map (fun t => Item (Text t)) ["hi"; "x"] ++ [Item Close; Item (Text "later")])
  = ["alice: hi"; "alice: x"].
Proof. apply send_messages_format. exact I. Defined.

(** C6.  On an existing room, the closing sequence aborts the other task,
    broadcasts "{username} left the chat!", removes the username, then
    removes the room if its member set is now empty. *)
Lemma closing_sequence (w : Winner) (rooms : Rooms) (u c : string)
    (room : RoomState) (Hroom : rooms !! c = Some room) :
  let m := users room ∖ {[u]} in
  let rooms1 := <[c := {| users := m |}]> rooms in
  closing w rooms u c
  = (([abort_of w; Broadcast_send (u ++ " left the chat!"); Leave c u]
       ++ (if Nat.eqb (size m) 0 then [RemoveRoom c] else []))%list,
     Some (if Nat.eqb (size m) 0 then delete c rooms1 else rooms1)).
Proof.
  unfold closing, leave. rewrite Hroom. simpl.
  rewrite lookup_insert_eq. simpl.
  by destruct (Nat.eqb _ 0).
Qed.

Lemma closing_sequence_witness :
  ({["lobby" := {| users := {["alice"]} |}]} : Rooms) !! "lobby" = Some {| users := {["alice"]} |}
  /\ closing SendMessagesDone {["lobby" := {| users := {["alice"]} |}]} "alice" "lobby"
     = (([abort_of SendMessagesDone; Broadcast_send ("alice" ++ " left the chat!");
         Leave "lobby" "alice"]
          ++ (if Nat.eqb (size ({["alice"]} ∖ {["alice"]} : gset string)) 0
              then [RemoveRoom "lobby"] else []))%list,
        Some (if Nat.eqb (size ({["alice"]} ∖ {["alice"]} : gset string)) 0
              then delete "lobby" (<["lobby" := {| users := {["alice"]} ∖ {["alice"]} |}]>
                                     {["lobby" := {| users := {["alice"]} |}]})
              else <["lobby" := {| users := {["alice"]} ∖ {["alice"]} |}]>
                     {["lobby" := {| users := {["alice"]} |}]})).
Proof.
  split; [reflexivity|].
  exact (closing_sequence SendMessagesDone {["lobby" := {| users := {["alice"]} |}]}
           "alice" "lobby" {| users := {["alice"]} |} eq_refl).
Defined.

(** C7.  On a room that exists, removing an absent name changes nothing and
    succeeds, and removing twice equals removing once. *)
Lemma leave_idempotent (rooms : Rooms) (c u : string) (room : RoomState)
    (Hroom : rooms !! c = Some room) :
  (u ∉ users room -> leave rooms c u = Some rooms)
  /\ (leave rooms c u ≫= fun r => leave r c u) = leave rooms c u.
Proof.
  unfold leave. rewrite Hroom. split.
  - intros Hu. f_equal. apply insert_id. rewrite Hroom.
    destruct room as [m]; simpl in *. do 2 f_equal. set_solver.
  - simpl. rewrite lookup_insert_eq. simpl. rewrite insert_insert_eq.
    assert (users room ∖ {[u]} ∖ {[u]} = users room ∖ {[u]}) as -> by set_solver. done.
Qed.

Lemma leave_idempotent_witness :
  ({["lobby" := {| users := {["alice"]} |}]} : Rooms) !! "lobby" = Some {| users := {["alice"]} |}
  /\ leave {["lobby" := {| users := {["alice"]} |}]} "lobby" "bob"
     = Some {["lobby" := {| users := {["alice"]} |}]}.
Proof.
  split; [reflexivity|].
  refine (proj1 (leave_idempotent {["lobby" := {| users := {["alice"]} |}]} "lobby" "bob"
                   {| users := {["alice"]} |} _) _).
  - reflexivity.
  - apply (bool_decide_unpack _). vm_compute. reflexivity.
Defined.

(** C8 (counterexample).  After alice's handshake, a second text frame that
    is itself a join request is relayed as a chat line; no failure notice is
    sent. *)
Lemma second_join_request_relayed :
  compact_from_str (join_request "bob" "lobby")
    = Some {| username := "bob"; channel := "lobby" |}
  /\ (exists rooms',
       handle_socket_handshake compact_from_str ∅
         [Item (Text (join_request "alice" "lobby")); Item (Text (join_request "bob" "lobby"))]
       = SActive rooms' [] "alice" "lobby" "lobby" [Item (Text (join_request "bob" "lobby"))])
  /\ send_messages "alice" [Item (Text (join_request "bob" "lobby"))]
     = ["alice: " ++ join_request "bob" "lobby"].
Proof. split; [reflexivity|]. split; [eexists; reflexivity|reflexivity]. Qed.

(** C8 (amended).  Every successful handshake ends at the first text frame,
    a join request for the session's username and room, preceded only by
    non-text frames; nothing has been sent to the client, and the frames
    after the join go unchanged to the inbound loop, which relays every
    text frame, join request or not, as a chat line. *)
Lemma frames_after_join_relayed (from_str : string -> option Connect)
    (rooms : Rooms) (rx : list WsItem)
    (r : Rooms) (sent : list string) (u c tx : string) (rest' : list WsItem)
    (Hjoin : handle_socket_handshake from_str rooms rx = SActive r sent u c tx rest') :
  sent = []
  /\ (exists pre s, rx = (pre ++ Item (Text s) :: rest')%list
        /\ Forall (fun it => non_text it = true) pre
        /\ from_str s = Some {| username := u; channel := c |})
  /\ forall text more,
       send_messages u (Item (Text text) :: more) = (u ++ ": " ++ text) :: send_messages u more.
Proof.
  revert Hjoin. unfold handle_socket_handshake.
  induction rx as [|[m|] rx IH]; intros Hjoin; simpl in Hjoin; try discriminate.
  destruct m as [s|b|b|b|].
  - destruct (from_str s) as [conn|] eqn:Hs; simpl in Hjoin; [|discriminate].
    unfold join_critical in Hjoin.
    destruct (bool_decide (username conn ∈ users (default RoomState_new (rooms !! channel conn))));
      simpl in Hjoin; [discriminate|].
    destruct (String.eqb (username conn) "") eqn:Hu; simpl in Hjoin; [discriminate|].
    injection Hjoin; intros; subst. split; [done|]. split; [|done].
    exists [], s. split; [done|]. split; [constructor|]. rewrite Hs. by destruct conn.
  - destruct (IH Hjoin) as (Hs & (pre & s & -> & Hpre & Hd) & Hrel).
    split; [done|]. split; [|done]. exists (Item (Binary b) :: pre), s. by repeat constructor.
  - destruct (IH Hjoin) as (Hs & (pre & s & -> & Hpre & Hd) & Hrel).
    split; [done|]. split; [|done]. exists (Item (Ping b) :: pre), s. by repeat constructor.
  - destruct (IH Hjoin) as (Hs & (pre & s & -> & Hpre & Hd) & Hrel).
    split; [done|]. split; [|done]. exists (Item (Pong b) :: pre), s. by repeat constructor.
  - destruct (IH Hjoin) as (Hs & (pre & s & -> & Hpre & Hd) & Hrel).
    split; [done|]. split; [|done]. exists (Item Close :: pre), s. by repeat constructor.
Qed.

Lemma frames_after_join_relayed_witness :
  exists r, handle_socket_handshake compact_from_str ∅
      [Item (Ping []); Item (Text (join_request "alice" "lobby"));
       Item (Text (join_request "bob" "lobby"))]
    = SActive r [] "alice" "lobby" "lobby" [Item (Text (join_request "bob" "lobby"))]
  /\ (exists pre s,
        [Item (Ping []); Item (Text (join_request "alice" "lobby"));
         Item (Text (join_request "bob" "lobby"))]
        = (pre ++ Item (Text s) :: [Item (Text (join_request "bob" "lobby"))])%list
        /\ Forall (fun it => non_text it = true) pre
        /\ compact_from_str s = Some {| username := "alice"; channel := "lobby" |})
  /\ send_messages "alice" [Item (Text (join_request "bob" "lobby"))]
     = ["alice: " ++ join_request "bob" "lobby"].
Proof.
  pose (R := session_rooms (handle_socket_handshake compact_from_str ∅
               [Item (Ping []); Item (Text (join_request "alice" "lobby"));
                Item (Text (join_request "bob" "lobby"))])).
  assert (Hj : handle_socket_handshake compact_from_str ∅
                 [Item (Ping []); Item (Text (join_request "alice" "lobby"));
                  Item (Text (join_request "bob" "lobby"))]
               = SActive R [] "alice" "lobby" "lobby" [Item (Text (join_request "bob" "lobby"))])
    by (vm_compute; reflexivity).
  exists R. split; [exact Hj|].
  destruct (frames_after_join_relayed compact_from_str ∅ _ R [] "alice" "lobby" "lobby"
              [Item (Text (join_request "bob" "lobby"))] Hj) as (_ & H2 & H3).
  split; [exact H2|]. apply H3.
Defined.

(* ------------------------------------------------------------------ *)
(** ** Broadcast delivery *)






(* ------------------------------------------------------------------ *)
(** ** The registry across all sessions *)

Lemma join_critical_spec (rooms : Rooms) (conn : Connect) :
  rooms_nonempty rooms ->
  let '(rooms1, tx1, u1) := join_critical rooms conn "" in
  rooms_grow rooms rooms1 /\ rooms_nonempty rooms1 /\ tx1 = Some (channel conn)
  /\ (u1 = "" \/
      (u1 = username conn
       /\ (forall r, rooms !! channel conn = Some r -> u1 ∉ users r)
       /\ exists r', rooms1 !! channel conn = Some r' /\ u1 ∈ users r')).
Proof.
  intros Hne. unfold join_critical.
  set (room := default RoomState_new (rooms !! channel conn)).
  destruct (bool_decide (username conn ∈ users room)) eqn:Hin; simpl.
  - apply bool_decide_eq_true in Hin.
    assert (Hroom : rooms !! channel conn = Some room).
    { unfold room in *. destruct (rooms !! channel conn); simpl in *; [done|set_solver]. }
    split; [|split; [|split; [done|by left]]].
    + intros c r Hr. destruct (decide (c = channel conn)) as [->|Hc].
      * rewrite lookup_insert_eq. rewrite Hroom in Hr. injection Hr as ->. eauto.
      * rewrite lookup_insert_ne by congruence. eauto.
    + intros c r. rewrite lookup_insert. case_decide as Hc.
      * intros [= <-]. set_solver.
      * apply Hne.
  - apply bool_decide_eq_false in Hin.
    split; [|split; [|split; [done|right]]].
    + intros c r Hr. destruct (decide (c = channel conn)) as [->|Hc].
      * rewrite lookup_insert_eq. eexists; split; [done|]. simpl.
        unfold room in *. rewrite Hr. simpl. set_solver.
      * rewrite lookup_insert_ne by congruence. eauto.
    + intros c r. rewrite lookup_insert. case_decide as Hc.
      * intros [= <-]. simpl. set_solver.
      * apply Hne.
    + split; [done|]. split.
      * intros r Hr. unfold room in Hin. rewrite Hr in Hin. done.
      * rewrite lookup_insert_eq. eexists; split; [done|]. simpl. set_solver.
Qed.

Lemma rooms_grow_refl (rooms : Rooms) : rooms_grow rooms rooms.
Proof. intros c r Hr. eauto. Qed.

(** The handshake keeps every room and member, keeps rooms non-empty, and a
    session that goes [Active] holds a name that was free in its room and is
    now a member of it. *)
Lemma handshake_spec (from_str : string -> option Connect) (rooms : Rooms)
    (rx : list WsItem) :
  rooms_nonempty rooms ->
  let s := handle_socket_handshake from_str rooms rx in
  rooms_grow rooms (session_rooms s) /\ rooms_nonempty (session_rooms s)
  /\ (forall r sent u c tx rest, s = SActive r sent u c tx rest ->
        (forall room, rooms !! c = Some room -> u ∉ users room)
        /\ exists room, r !! c = Some room /\ u ∈ users room).
Proof.
  intros Hne. unfold handle_socket_handshake.
  generalize (@nil string) as sent.
  induction rx as [|it rx IH]; intros sent; simpl.
  - split; [apply rooms_grow_refl|]. split; [done|]. discriminate.
  - destruct it as [[name| | | |]|]; simpl;
      try (split; [apply rooms_grow_refl|]; split; [done|]; discriminate);
      try apply IH.
    destruct (from_str name) as [conn|]; simpl.
    + generalize (join_critical_spec rooms conn Hne).
      destruct (join_critical rooms conn "") as [[rooms1 tx1] u1].
      intros (Hg & Hne1 & -> & Hu). simpl.
      destruct Hu as [->|(-> & Hfree & Hmem)]; simpl.
      * split; [done|]. split; [done|]. discriminate.
      * destruct (negb (username conn =? "")); simpl.
        -- split; [done|]. split; [done|].
           intros r sent' u c tx rest [= <- _ <- <- _ _]. done.
        -- split; [done|]. split; [done|]. discriminate.
    + split; [apply rooms_grow_refl|]. split; [done|]. discriminate.
Qed.

Lemma system_inv_init : system_inv init.
Proof.
  split; [|split].
  - intros c r. simpl. by rewrite lookup_empty.
  - intros i u c. simpl. by rewrite lookup_nil.
  - intros i j u c. simpl. by rewrite lookup_nil.
Qed.

Lemma system_inv_step (from_str : string -> option Connect) (sys sys' : System) :
  step from_str sys sys' -> system_inv sys -> system_inv sys'.
Proof.
  intros Hstep (Hne & Hmem & Huniq).
  destruct Hstep as [rooms ss rx|rooms ss i rx Hi|rooms ss i u c w Hi]; simpl in *.
  - (* a new connection *)
    split; [done|split].
    + intros i u c [Hl|[_ Hl]]%lookup_snoc_Some; [naive_solver|congruence].
    + intros i j u c [Hl|[_ Hl]]%lookup_snoc_Some [Hl'|[_ Hl']]%lookup_snoc_Some;
        try congruence. destruct Hl, Hl'. eauto.
  - (* a handshake *)
    destruct (handshake_spec from_str rooms rx Hne) as (Hg & Hne' & Hact).
    set (s := handle_socket_handshake from_str rooms rx) in *.
    split; [done|split].
    + intros j u c [(<- & Hp & _)|(_ & Hj)]%list_lookup_insert_Some.
      * destruct s; simpl in Hp; try discriminate. injection Hp as -> ->.
        by destruct (Hact _ _ _ _ _ _ eq_refl) as [_ ?].
      * destruct (Hmem _ _ _ Hj) as (r & Hr & Hu).
        destruct (Hg _ _ Hr) as (r' & Hr' & Hsub). eauto.
    + assert (Hnew : forall u c k, session_phase s = Active u c ->
                ss !! k = Some (Active u c) -> False).
      { intros u c k Hp Hk. destruct s; simpl in Hp; try discriminate.
        injection Hp as -> ->.
        destruct (Hact _ _ _ _ _ _ eq_refl) as [Hfree _].
        destruct (Hmem _ _ _ Hk) as (r & Hr & Hu). by apply (Hfree r). }
      intros j k u c [(<- & Hp & _)|(Hij & Hj)]%list_lookup_insert_Some
                       [(<- & Hp' & _)|(Hik & Hk)]%list_lookup_insert_Some;
        eauto; exfalso; eauto.
  - (* the closing of session i *)
    destruct (Hmem _ _ _ Hi) as (room & Hroom & Hu).
    rewrite (closing_sequence w rooms u c room Hroom). simpl.
    set (m := users room ∖ {[u]}).
    assert (Hm : forall c' u' k, ss !! k = Some (Active u' c') -> k ≠ i -> c' = c -> u' ∈ m).
    { intros c' u' k Hk Hki ->. destruct (Hmem _ _ _ Hk) as (r & Hr & Hu').
      rewrite Hroom in Hr. injection Hr as <-. unfold m.
      destruct (decide (u' = u)) as [->|Hne'].
      - by destruct Hki; apply (Huniq k i u c).
      - set_solver. }
    split; [|split]; cbn [sys_rooms sessions].
    + intros c' r. destruct (Nat.eqb (size m) 0) eqn:Hsz.
      * rewrite lookup_delete. case_decide; [discriminate|].
        rewrite lookup_insert_ne by done. apply Hne.
      * rewrite lookup_insert. case_decide as Hc.
        -- intros [= <-]. simpl. intros Hemp.
           apply Nat.eqb_neq in Hsz. apply Hsz. by rewrite Hemp, size_empty.
        -- apply Hne.
    + intros k u' c' [(<- & Hp & _)|(Hik & Hk)]%list_lookup_insert_Some; [discriminate|].
      destruct (decide (c' = c)) as [->|Hc].
      * assert (Hu' : u' ∈ m) by eauto.
        assert (Hsz : Nat.eqb (size m) 0 = false).
        { apply Nat.eqb_neq. intros Hz. apply size_empty_inv in Hz. set_solver. }
        rewrite Hsz, lookup_insert_eq. eauto.
      * destruct (Hmem _ _ _ Hk) as (r & Hr & Hur). exists r. split; [|done].
        destruct (Nat.eqb (size m) 0).
        -- rewrite lookup_delete_ne, lookup_insert_ne by congruence. done.
        -- rewrite lookup_insert_ne by congruence. done.
    + intros j k u' c' [(<- & Hp & _)|(Hij & Hj)]%list_lookup_insert_Some;
        [discriminate|].
      intros [(<- & Hp' & _)|(Hik & Hk)]%list_lookup_insert_Some; [discriminate|].
      eauto.
Qed.

Lemma system_inv_reachable (from_str : string -> option Connect) (sys : System) :
  reachable from_str sys -> system_inv sys.
Proof.
  unfold reachable. intros Hr.
  assert (Hgen : forall s1 s2, rtc (step from_str) s1 s2 -> system_inv s1 -> system_inv s2).
  { induction 1 as [|s1 s2 s3 H12 _ IH]; [done|]. eauto using system_inv_step. }
  exact (Hgen _ _ Hr system_inv_init).
Qed.

(** C3.  In every reachable state a room is in the registry exactly when it
    has a member.  The registry starts empty; a join that goes [Active]
    leaves its room present; a closing that removes the room's last member
    leaves the room absent. *)
Theorem registry_room_iff_member (from_str : string -> option Connect)
    (sys : System) (Hreach : reachable from_str sys) :
  sys_rooms init = ∅
  /\ (forall c, is_Some (sys_rooms sys !! c)
                <-> exists room, sys_rooms sys !! c = Some room /\ users room ≠ ∅)
  /\ (forall i rx r sent u c tx rest,
        sessions sys !! i = Some (Handshaking rx) ->
        handle_socket_handshake from_str (sys_rooms sys) rx = SActive r sent u c tx rest ->
        is_Some (r !! c))
  /\ (forall i u c w effs rooms',
        sessions sys !! i = Some (Active u c) ->
        (forall room, sys_rooms sys !! c = Some room -> users room ⊆ {[u]}) ->
        closing w (sys_rooms sys) u c = (effs, Some rooms') ->
        rooms' !! c = None).
Proof.
  destruct (system_inv_reachable from_str sys Hreach) as (Hne & Hmem & _).
  split; [done|]. split; [|split].
  - intros c. split.
    + intros [room Hr]. exists room. split; [done|]. by apply (Hne c).
    + intros (room & Hr & _). by exists room.
  - intros i rx r sent u c tx rest _ Hs.
    destruct (handshake_spec from_str (sys_rooms sys) rx Hne) as (_ & _ & Hact).
    destruct (Hact _ _ _ _ _ _ Hs) as [_ (room & Hr & _)]. by exists room.
  - intros i u c w effs rooms' Hi Hlast Hcl.
    destruct (Hmem _ _ _ Hi) as (room & Hroom & _).
    rewrite (closing_sequence w _ u c room Hroom) in Hcl.
    assert (Hm : users room ∖ {[u]} = ∅) by (specialize (Hlast room Hroom); set_solver).
    rewrite Hm, size_empty in Hcl. simpl in Hcl. injection Hcl as _ <-.
    apply lookup_delete_eq.
Qed.

Lemma alice_in_lobby_reachable : reachable compact_from_str alice_in_lobby.
Proof.
  eapply rtc_l; [apply (step_accept compact_from_str ∅ [] alice_rx)|].
  eapply rtc_l; [apply (step_handshake compact_from_str ∅ _ 0 alice_rx); reflexivity|].
  apply rtc_refl.
Qed.

Lemma registry_room_iff_member_witness :
  reachable compact_from_str alice_in_lobby
  /\ is_Some (sys_rooms alice_in_lobby !! "lobby").
Proof.
  split; [exact alice_in_lobby_reachable|].
  destruct (registry_room_iff_member compact_from_str alice_in_lobby
              alice_in_lobby_reachable) as (_ & Hiff & _).
  apply Hiff. eexists. split; [vm_compute; reflexivity|].
  apply (bool_decide_unpack _). vm_compute. reflexivity.
Defined.

(** C9.  For a session that went [Active] in any reachable state, its room
    is in the registry with its name as a member, so both [unwrap]s of the
    closing sequence succeed, whichever loop ended first. *)
Theorem cleanup_room_present (from_str : string -> option Connect)
    (sys : System) (i : nat) (u c : string)
    (Hreach : reachable from_str sys)
    (Hi : sessions sys !! i = Some (Active u c)) :
  (exists room, sys_rooms sys !! c = Some room /\ u ∈ users room)
  /\ forall w, exists effs rooms',
       closing w (sys_rooms sys) u c = (effs, Some rooms') /\ ~ In Panic effs.
Proof.
  destruct (system_inv_reachable from_str sys Hreach) as (_ & Hmem & _).
  destruct (Hmem _ _ _ Hi) as (room & Hroom & Hu).
  split; [eauto|]. intros w.
  rewrite (closing_sequence w _ u c room Hroom).
  do 2 eexists. split; [reflexivity|].
  destruct w, (Nat.eqb _ 0); simpl; intuition discriminate.
Qed.

Lemma cleanup_room_present_witness :
  reachable compact_from_str alice_in_lobby
  /\ sessions alice_in_lobby !! 0 = Some (Active "alice" "lobby")
  /\ exists room, sys_rooms alice_in_lobby !! "lobby" = Some room /\ "alice" ∈ users room.
Proof.
  assert (Hi : sessions alice_in_lobby !! 0 = Some (Active "alice" "lobby"))
    by (vm_compute; reflexivity).
  split; [exact alice_in_lobby_reachable|]. split; [exact Hi|].
  exact (proj1 (cleanup_room_present compact_from_str alice_in_lobby 0 "alice" "lobby"
                  alice_in_lobby_reachable Hi)).
Defined.

(* ================================================================== *)
(** * Further properties of main.rs *)

(* ------------------------------------------------------------------ *)
(** ** Port selection *)

Lemma digit_value_pretty_char (d : N) :
  (d < 10)%N -> digit_value (pretty_N_char d) = Some d.
Proof.
  intros Hd.
  assert (d = 0 \/ d = 1 \/ d = 2 \/ d = 3 \/ d = 4 \/ d = 5 \/ d = 6 \/ d = 7
          \/ d = 8 \/ d = 9)%N as Hcases by lia.
  repeat destruct Hcases as [->|Hcases]; try reflexivity; subst; reflexivity.
Qed.

(** Parsing the decimal digits of [x] followed by [s] either fails inside
    the digits (when [x] exceeds 65535) or continues on [s] from [x]. *)
Lemma parse_digits_pretty_go (x : N) (s : string) :
  parse_digits 0 (pretty_N_go x s)
  = if N.leb x 65535 then parse_digits x s else None.
Proof.
  revert s. induction x as [x IH] using (well_founded_induction N.lt_wf_0). intros s.
  destruct (decide (x = 0%N)) as [->|Hx]; [reflexivity|].
  rewrite pretty_N_go_step by lia.
  rewrite IH by (apply N.div_lt; lia).
  assert (Hsplit : (x `div` 10 * 10 + x `mod` 10 = x)%N).
  { rewrite N.mul_comm. symmetry. apply N.div_mod. lia. }
  destruct (N.leb (x `div` 10) 65535) eqn:Hq; simpl.
  - rewrite digit_value_pretty_char by (apply N.mod_lt; lia). simpl.
    rewrite Hsplit. destruct (N.leb x 65535) eqn:Hx'.
    + replace (N.ltb 65535 x) with false by (symmetry; apply N.ltb_ge; apply N.leb_le in Hx'; lia).
      reflexivity.
    + replace (N.ltb 65535 x) with true by (symmetry; apply N.ltb_lt; apply N.leb_gt in Hx'; lia).
      reflexivity.
  - replace (N.leb x 65535) with false; [reflexivity|].
    symmetry. apply N.leb_gt. apply N.leb_gt in Hq.
    pose proof (N.Div0.mul_div_le x 10). lia.
Qed.

Lemma parse_digits_plus (acc : N) (s : string) :
  parse_digits acc (String (Ascii.ascii_of_nat 43) s) = None.
Proof. reflexivity. Qed.

(** X: with [PORT] unset the server listens on 3000; with [PORT] set to the
    decimal form of [n] it listens on [n] when [n <= 65535] and panics
    (the [unwrap] of the parse error) when [n] is larger. *)
Theorem main_port_decimal (n : N) :
  main_port None = Some 3000%N
  /\ main_port (Some (pretty n)) = if N.leb n 65535 then Some n else None.
Proof.
  split; [reflexivity|]. simpl.
  unfold pretty, pretty_N. case_decide as Hn; [subst; reflexivity|].
  pose proof (parse_digits_pretty_go n "") as Hp.
  destruct (pretty_N_go n "") as [|a rest] eqn:Hs.
  - (* the digits of a positive number are not empty *)
    exfalso. rewrite pretty_N_go_step in Hs by lia.
    assert (Hlen : forall y t, String.length t <= String.length (pretty_N_go y t)).
    { intros y. induction y as [y IHy] using (well_founded_induction N.lt_wf_0). intros t.
      destruct (decide (y = 0%N)) as [->|Hy]; [done|].
      rewrite pretty_N_go_step by lia.
      etrans; [|apply IHy; apply N.div_lt; lia]. simpl. lia. }
    pose proof (Hlen (n `div` 10)%N (String (pretty_N_char (n `mod` 10)) "")) as H.
    rewrite Hs in H. simpl in H. lia.
  - (* the digits of a number start with a digit, not with [+] *)
    assert (Hdig : forall y t, (forall b t', t = String b t' -> is_Some (digit_value b)) ->
                     forall b t', pretty_N_go y t = String b t' -> is_Some (digit_value b)).
    { intros y. induction y as [y IHy] using (well_founded_induction N.lt_wf_0).
      intros t Ht b t' Heq.
      destruct (decide (y = 0%N)) as [->|Hy]; [by apply (Ht b t')|].
      rewrite pretty_N_go_step in Heq by lia.
      refine (IHy (y `div` 10)%N _ _ _ b t' Heq); [apply N.div_lt; lia|].
      intros b' t'' [= <- _]. rewrite digit_value_pretty_char; [done|].
      apply N.mod_lt; lia. }
    destruct (Hdig n "" ltac:(discriminate) _ _ Hs) as [d Hd].
    unfold u16_from_str.
    destruct (Ascii.eqb a (Ascii.ascii_of_nat 43)) eqn:Ha.
    + apply Ascii.eqb_eq in Ha. subst a. discriminate.
    + rewrite Hp. destruct (N.leb n 65535); reflexivity.
Qed.

(* ------------------------------------------------------------------ *)
(** ** The listing endpoint *)

(** X: [get_rooms] lists each room of the registry exactly once and nothing
    else, and reports "No rooms found yet!" with an empty list exactly when
    the registry is empty, "Success!" otherwise. *)
Theorem get_rooms_lists_registry (rooms : Rooms) :
  exists names : list string,
    get_rooms rooms
    = JObject [("status", JString (if bool_decide (names = []) then "No rooms found yet!"
                                   else "Success!"));
               ("rooms", JArray (map JString names))]
    /\ NoDup names
    /\ (forall c, c ∈ names <-> is_Some (rooms !! c))
    /\ (names = [] <-> rooms = ∅).
Proof.
  exists ((map_to_list rooms).*1). split; [|split; [|split]].
  - unfold get_rooms. destruct ((map_to_list rooms).*1) as [|c cs]; reflexivity.
  - apply NoDup_fst_map_to_list.
  - intros c. rewrite list_elem_of_fmap. split.
    + intros ([c' v] & -> & Hin). apply elem_of_map_to_list in Hin. by exists v.
    + intros [v Hv]. exists (c, v). split; [done|]. by apply elem_of_map_to_list.
  - rewrite <- map_to_list_empty_iff. by destruct (map_to_list rooms).
Qed.

(** X: in every reachable state, every room the listing names has at least
    one member. *)
Theorem get_rooms_reachable_members (from_str : string -> option Connect)
    (sys : System) (Hreach : reachable from_str sys) (status : Json) (items : list Json)
    (Hlist : get_rooms (sys_rooms sys) = JObject [("status", status); ("rooms", JArray items)]) :
  forall c, JString c ∈ items ->
    exists room, sys_rooms sys !! c = Some room /\ users room ≠ ∅.
Proof.
  destruct (system_inv_reachable from_str sys Hreach) as (Hne & _ & _).
  destruct (get_rooms_lists_registry (sys_rooms sys)) as (names & Hg & _ & Hin & _).
  rewrite Hg in Hlist. injection Hlist as _ <-.
  intros c Hc. apply list_elem_of_fmap in Hc as (c' & [= <-] & Hc').
  apply Hin in Hc' as [room Hroom]. exists room. split; [done|]. by apply (Hne c).
Qed.

Lemma get_rooms_reachable_members_witness :
  reachable compact_from_str alice_in_lobby
  /\ get_rooms (sys_rooms alice_in_lobby)
     = JObject [("status", JString "Success!"); ("rooms", JArray [JString "lobby"])]
  /\ exists room, sys_rooms alice_in_lobby !! "lobby" = Some room /\ users room ≠ ∅.
Proof.
  assert (Hg : get_rooms (sys_rooms alice_in_lobby)
               = JObject [("status", JString "Success!"); ("rooms", JArray [JString "lobby"])])
    by (vm_compute; reflexivity).
  split; [exact alice_in_lobby_reachable|]. split; [exact Hg|].
  apply (get_rooms_reachable_members compact_from_str alice_in_lobby alice_in_lobby_reachable
           _ _ Hg). left.
Defined.

(* ------------------------------------------------------------------ *)
(** ** Handshake and closing *)

(** X: binary, ping and pong frames before the first text frame are ignored
    by the handshake: the session behaves as if they were absent. *)
Theorem handshake_ignores_non_text (from_str : string -> option Connect)
    (rooms : Rooms) (pre rest : list WsItem)
    (Hpre : Forall (fun it => ignored_frame it = true) pre) :
  handle_socket_handshake from_str rooms (pre ++ rest)
  = handle_socket_handshake from_str rooms rest.
Proof.
  unfold handle_socket_handshake.
  by rewrite (handshake_loop_skip _ _ _ _ _ _ _ _ (ignored_frames_non_text _ Hpre)).
Qed.

Lemma handshake_ignores_non_text_witness :
  handle_socket_handshake compact_from_str ∅
    ([Item (Ping [Byte.x01]); Item (Binary []); Item (Pong [])]
       ++ [Item (Text (join_request "alice" "lobby"))])
  = handle_socket_handshake compact_from_str ∅ [Item (Text (join_request "alice" "lobby"))].
Proof. apply handshake_ignores_non_text. repeat constructor. Defined.

(** X: for a first text frame decoding to a non-empty username [u] and room
    [c], after any binary, ping and pong frames, the session goes [Active]
    exactly when [u] is not a member of [c] (a missing room counts as empty).  Then [u] is added to [c], creating
    it if needed, nothing is sent and the frames after it are left to the
    inbound loop; otherwise the client gets "Username already taken." and
    the registry is unchanged. *)
Theorem handshake_join_decision (from_str : string -> option Connect)
    (rooms : Rooms) (pre : list WsItem) (s : string) (rest : list WsItem) (conn : Connect)
    (Hpre : Forall (fun it => ignored_frame it = true) pre)
    (Hdec : from_str s = Some conn) (Hu : username conn ≠ "") :
  let m := users (default RoomState_new (rooms !! channel conn)) in
  handle_socket_handshake from_str rooms (pre ++ Item (Text s) :: rest)
  = if bool_decide (username conn ∈ m)
    then SReturned rooms ["Username already taken."]
    else SActive (<[channel conn := {| users := {[username conn]} ∪ m |}]> rooms) []
           (username conn) (channel conn) (channel conn) rest.
Proof.
  unfold handle_socket_handshake.
  rewrite (handshake_loop_skip _ _ _ _ _ _ _ _ (ignored_frames_non_text _ Hpre)).
  simpl. rewrite Hdec. unfold join_critical.
  destruct (bool_decide (username conn ∈ users (default RoomState_new (rooms !! channel conn))))
    eqn:Hin; simpl.
  - f_equal. apply bool_decide_eq_true in Hin.
    apply insert_id. destruct (rooms !! channel conn); simpl in *; [done|set_solver].
  - apply String.eqb_neq in Hu. rewrite Hu. reflexivity.
Qed.

Lemma handshake_join_decision_witness :
  handle_socket_handshake compact_from_str {["lobby" := {| users := {["alice"]} |}]}
    ([Item (Ping [])] ++ [Item (Text (join_request "alice" "lobby"))])
  = SReturned {["lobby" := {| users := {["alice"]} |}]} ["Username already taken."].
Proof.
  rewrite (handshake_join_decision compact_from_str _ [Item (Ping [])]
             (join_request "alice" "lobby") []
             {| username := "alice"; channel := "lobby" |}
             ltac:(repeat constructor) eq_refl ltac:(discriminate)).
  vm_compute. reflexivity.
Defined.

(** X: on a registry whose rooms all have members, a session that joins and
    then runs its closing sequence, with no other session in between, leaves
    the registry exactly as it found it: a room it created is removed again,
    an existing room gets its member set back. *)
Theorem join_then_close_restores (from_str : string -> option Connect)
    (rooms : Rooms) (rx : list WsItem) (r : Rooms) (sent : list string)
    (u c tx : string) (rest : list WsItem) (w : Winner)
    (Hne : rooms_nonempty rooms)
    (Hjoin : handle_socket_handshake from_str rooms rx = SActive r sent u c tx rest) :
  snd (closing w r u c) = Some rooms.
Proof.
  destruct (handshake_spec from_str rooms rx Hne) as (Hg & _ & Hact).
  rewrite Hjoin in Hg, Hact. simpl in Hg.
  destruct (Hact _ _ _ _ _ _ eq_refl) as [Hfree (room' & Hr' & Hu')].
  (* the handshake changed only room [c], by adding [u] *)
  assert (Hframe : forall c', c' ≠ c -> r !! c' = rooms !! c').
  { clear -Hjoin. unfold handle_socket_handshake in Hjoin.
    revert Hjoin. generalize (@nil string) as sent0.
    induction rx as [|it rx IH]; intros sent0 Hjoin; simpl in Hjoin.
    - discriminate.
    - destruct it as [[name| | | |]|]; simpl in Hjoin; try discriminate; try (by eapply IH).
      destruct (from_str name) as [conn|]; simpl in Hjoin; [|discriminate].
      unfold join_critical in Hjoin.
      destruct (bool_decide (username conn ∈ users (default RoomState_new (rooms !! channel conn))));
        simpl in Hjoin;
        [discriminate|].
      destruct (negb (username conn =? "")); simpl in Hjoin; [|discriminate].
      injection Hjoin as <- _ _ <- _ _. intros c' Hc'.
      by rewrite lookup_insert_ne by congruence. }
  assert (Hm : users room' = {[u]} ∪ default ∅ (users <$> rooms !! c)).
  { clear -Hjoin Hr'. unfold handle_socket_handshake in Hjoin. revert Hr'.
    revert Hjoin. generalize (@nil string) as sent0.
    induction rx as [|it rx IH]; intros sent0 Hjoin; simpl in Hjoin.
    - discriminate.
    - destruct it as [[name| | | |]|]; simpl in Hjoin; try discriminate; try (by eapply IH).
      destruct (from_str name) as [conn|]; simpl in Hjoin; [|discriminate].
      unfold join_critical in Hjoin.
      destruct (bool_decide (username conn ∈ users (default RoomState_new (rooms !! channel conn))));
        simpl in Hjoin;
        [discriminate|].
      destruct (negb (username conn =? "")); simpl in Hjoin; [|discriminate].
      injection Hjoin as <- _ <- <- _ _. intros Hr'. rewrite lookup_insert_eq in Hr'.
      injection Hr' as <-. simpl. by destruct (rooms !! channel conn). }
  rewrite (closing_sequence w r u c room' Hr'). simpl.
  set (m0 := default ∅ (users <$> rooms !! c)) in *.
  assert (Hdiff : users room' ∖ {[u]} = m0).
  { rewrite Hm. unfold m0. destruct (rooms !! c) as [r0|] eqn:Hc; simpl.
    - specialize (Hfree r0 eq_refl). set_solver.
    - set_solver. }
  rewrite Hdiff. f_equal. apply map_eq. intros c'.
  destruct (decide (c' = c)) as [->|Hc'].
  - unfold m0. destruct (rooms !! c) as [r0|] eqn:Hc; simpl.
    + assert (Hsz : Nat.eqb (size (users r0)) 0 = false).
      { apply Nat.eqb_neq. intros Hz. apply size_empty_inv in Hz.
        apply (Hne c r0 Hc). set_solver. }
      rewrite Hsz, lookup_insert_eq. by destruct r0.
    + change (set_size {| mapset.mapset_car := (∅ : gmap string ()) |}) with 0. simpl.
      by rewrite lookup_delete_eq.
  - destruct (Nat.eqb (size m0) 0).
    + rewrite lookup_delete_ne, lookup_insert_ne by congruence. by apply Hframe.
    + rewrite lookup_insert_ne by congruence. by apply Hframe.
Qed.

Lemma join_then_close_restores_witness :
  snd (closing SendMessagesDone (sys_rooms alice_in_lobby) "alice" "lobby") = Some ∅.
Proof.
  assert (Hj : handle_socket_handshake compact_from_str ∅ alice_rx
               = SActive (sys_rooms alice_in_lobby) [] "alice" "lobby" "lobby" [])
    by (vm_compute; reflexivity).
  apply (join_then_close_restores compact_from_str ∅ alice_rx _ [] "alice" "lobby" "lobby" []
           SendMessagesDone).
  - intros c room. by rewrite lookup_empty.
  - exact Hj.
Defined.

(** X: in every reachable state, no two sessions are active with the same
    username in the same room. *)
Theorem active_sessions_unique (from_str : string -> option Connect)
    (sys : System) (Hreach : reachable from_str sys) (i j : nat) (u c : string)
    (Hi : sessions sys !! i = Some (Active u c))
    (Hj : sessions sys !! j = Some (Active u c)) :
  i = j.
Proof.
  destruct (system_inv_reachable from_str sys Hreach) as (_ & _ & Huniq).
  eauto.
Qed.

Lemma active_sessions_unique_witness :
  sessions alice_in_lobby !! 0 = Some (Active "alice" "lobby") /\ 0 = 0.
Proof.
  assert (Hi : sessions alice_in_lobby !! 0 = Some (Active "alice" "lobby"))
    by (vm_compute; reflexivity).
  split; [exact Hi|].
  exact (active_sessions_unique compact_from_str alice_in_lobby alice_in_lobby_reachable
           0 0 "alice" "lobby" Hi Hi).
Defined.
